(** * Algorithm_Choice: two recurrences for 1/3^n and their fractional errors

    Shallow embedding of [examples/Algorithm_Choice.ipynb]: the generators
    [prec] and [qrec], the test cell computing [expected], [perr] and
    [qerr], and the integer expression [3**n] of the aside on overflow.

    NumPy arrays are lists updated by index; Python exceptions are the
    [Raise] results of a small error monad; the arithmetic is an interface
    [Num] with two instances: IEEE binary64 (what the notebook runs) and
    canonical rationals (what the notebook calls "mathematically exact"). *)

From Stdlib Require Import ZArith Lia QArith Qcanon Qabs Qpower.
From Stdlib Require PrimFloat SpecFloat FloatOps.
From stdpp Require Import base list.

Local Open Scope Z_scope.

(** ** Python exceptions and the error monad *)

Inductive exn : Set :=
| ValueError   (* np.zeros: negative dimensions; operands cannot be broadcast *)
| IndexError.  (* index out of bounds for the axis *)

Inductive res (A : Type) : Type :=
| Ok (a : A)
| Raise (e : exn).
Arguments Ok {A} a.
Arguments Raise {A} e.

#[global] Instance res_ret : MRet res := fun A a => Ok a.
#[global] Instance res_bind : MBind res := fun A B f m =>
  match m with
  | Ok a => f a
  | Raise e => Raise e
  end.

Definition is_Ok {A} (r : res A) : Prop := exists a, r = Ok a.

(** ** The arithmetic the notebook computes with *)

Class Num (F : Type) : Type := {
  of_int : Z -> F;          (* an integer used where a float is expected *)
  sub : F -> F -> F;
  mul : F -> F -> F;
  div : F -> F -> F;
  fabs : F -> F;            (* np.abs *)
  pow : F -> Z -> F         (* x ** j for an integer exponent j *)
}.

(** ** NumPy arrays of rank one *)

Section Arrays.
Context {F : Type} `{Num F}.

(** [np.zeros(n)]: a negative dimension is refused with ValueError.
    Memory is not bounded in this model. *)
Definition np_zeros (n : Z) : res (list F) :=
  if n <? 0 then Raise ValueError
  else Ok (replicate (Z.to_nat n) (of_int 0)).

(** An index [i] into an axis of size [len]: negative indices count from
    the end, anything outside [-len, len) raises IndexError. *)
Definition index_of (len : nat) (i : Z) : res nat :=
  if (0 <=? i) && (i <? Z.of_nat len) then Ok (Z.to_nat i)
  else if (- Z.of_nat len <=? i) && (i <? 0) then Ok (Z.to_nat (Z.of_nat len + i))
  else Raise IndexError.

(** [a[i]] *)
Definition getitem (a : list F) (i : Z) : res F :=
  k ← index_of (length a) i;
  match a !! k with
  | Some x => Ok x
  | None => Raise IndexError
  end.

(** [a[i] = v] *)
Definition setitem (a : list F) (i : Z) (v : F) : res (list F) :=
  k ← index_of (length a) i;
  Ok (<[k := v]> a).
End Arrays.

(** [range(lo, hi)] *)
Definition range (lo hi : Z) : list Z := seqZ lo (hi - lo).

(** [np.arange(n)] *)
Definition np_arange (n : Z) : list Z := seqZ 0 n.

(** [for j in l : s = body(j, s)] *)
Fixpoint for_in {St : Type} (l : list Z) (body : Z -> St -> res St) (s : St) : res St :=
  match l with
  | [] => Ok s
  | j :: l' => s' ← body j s; for_in l' body s'
  end.

(** ** The two generators *)

Section Generators.
Context {F : Type} `{Num F}.

(** def prec(n) :
        p = np.zeros(n+1)
        p[0] = 1
        p[1] = 1./3
        for j in range(2,n+1) :
            p[j] = 5./6*p[j-1] - 1./6*p[j-2]
        return p *)
Definition prec (n : Z) : res (list F) :=
  p ← np_zeros (n + 1);
  p ← setitem p 0 (of_int 1);
  p ← setitem p 1 (div (of_int 1) (of_int 3));
  for_in (range 2 (n + 1)) (fun j p =>
    a ← getitem p (j - 1);
    b ← getitem p (j - 2);
    setitem p j (sub (mul (div (of_int 5) (of_int 6)) a)
                     (mul (div (of_int 1) (of_int 6)) b))) p.

(** def qrec(n) :
        q = np.zeros(n+1)
        q[0] = 1
        q[1] = 1./3
        for j in range(2,n+1) :
            q[j] = 5./3*q[j-1] - 4./9*q[j-2]
        return q *)
Definition qrec (n : Z) : res (list F) :=
  q ← np_zeros (n + 1);
  q ← setitem q 0 (of_int 1);
  q ← setitem q 1 (div (of_int 1) (of_int 3));
  for_in (range 2 (n + 1)) (fun j q =>
    a ← getitem q (j - 1);
    b ← getitem q (j - 2);
    setitem q j (sub (mul (div (of_int 5) (of_int 3)) a)
                     (mul (div (of_int 4) (of_int 9)) b))) q.
End Generators.

(** ** The test cell: fractional errors against the closed form *)

Section Tests.
Context {F : Type} `{Num F}.

(** Elementwise binary operation on two arrays of rank one, with NumPy's
    broadcasting: equal sizes, or one operand of size one, else
    ValueError. *)
Definition broadcast (op : F -> F -> F) (a b : list F) : res (list F) :=
  if (length a =? length b)%nat then Ok (zip_with op a b)
  else match a, b with
       | [x], _ => Ok (op x <$> b)
       | _, [y] => Ok ((fun x => op x y) <$> a)
       | _, _ => Raise ValueError
       end.

(** n = np.arange(N+1)
    expected = 1/3.**n *)
Definition expected (N : Z) : list F :=
  (fun j => div (of_int 1) (pow (of_int 3) j)) <$> np_arange (N + 1).

(** np.abs(1-s/e) *)
Definition frac_err (s e : list F) : res (list F) :=
  r ← broadcast div s e;
  Ok (A:=list F) ((fun x => fabs (sub (of_int 1) x)) <$> r).

(** p = prec(N)
    perr = np.abs(1-p/expected) *)
Definition perr (N : Z) : res (list F) :=
  p ← prec N; frac_err p (expected N).

(** q = qrec(N)
    qerr = np.abs(1-q/expected) *)
Definition qerr (N : Z) : res (list F) :=
  q ← qrec N; frac_err q (expected N).
End Tests.

(** ** Fixed-width integers: the aside [1/3**n] *)

Module Int64.
Definition modulus : Z := 2 ^ 64.
Definition half_modulus : Z := 2 ^ 63.

(** Two's complement wrap-around of a mathematical integer. *)
Definition wrap (z : Z) : Z := (z + half_modulus) mod modulus - half_modulus.

Definition mul (a b : Z) : Z := wrap (a * b).

(** Square and multiply over the bits of the exponent, every product
    wrapped: NumPy's loop for [**] on int64. *)
Fixpoint pow_pos (a : Z) (p : positive) : Z :=
  match p with
  | xH => a
  | xO p' => pow_pos (mul a a) p'
  | xI p' => mul a (pow_pos (mul a a) p')
  end.

(** [a ** b] on int64; a negative exponent is refused with ValueError. *)
Definition pow (a b : Z) : res Z :=
  match b with
  | Z0 => Ok 1
  | Zpos p => Ok (pow_pos a p)
  | Zneg _ => Raise ValueError
  end.
End Int64.

(** ** IEEE binary64 *)

Module Float64.
Import SpecFloat.

Definition precision : Z := FloatOps.prec.
Definition emax : Z := FloatOps.emax.

(** Round to nearest, ties to even, of the real number [m * 2^e]. *)
Definition round (m e : Z) : PrimFloat.float :=
  FloatOps.SF2Prim (binary_normalize precision emax m e false).

(** Conversion of an integer (a Python int or an int64) to a float. *)
Definition of_int (z : Z) : PrimFloat.float := round z 0.

(** The exact power of a finite number, not yet rounded, as a signed
    mantissa and an exponent. *)
Definition exact_pow (s : bool) (m : positive) (e : Z) (p : positive) : Z * Z :=
  (Z.pow_pos (cond_Zopp s (Zpos m)) p, e * Zpos p).

Definition odd_pos (p : positive) : bool :=
  match p with xO _ => false | _ => true end.

(** [x ** p] for [p > 0]: the exact power rounded once. *)
Definition SFpow_pos (x : spec_float) (p : positive) : spec_float :=
  match x with
  | S754_nan => S754_nan
  | S754_zero s => S754_zero (s && odd_pos p)
  | S754_infinity s => S754_infinity (s && odd_pos p)
  | S754_finite s m e =>
      let '(m', e') := exact_pow s m e p in
      binary_normalize precision emax m' e' false
  end.

(** [x ** (-p)] for [p > 0]: one over the exact power, rounded once. *)
Definition SFpow_neg (x : spec_float) (p : positive) : spec_float :=
  match x with
  | S754_nan => S754_nan
  | S754_zero s => S754_infinity (s && odd_pos p)
  | S754_infinity s => S754_zero (s && odd_pos p)
  | S754_finite s m e =>
      let '(m', e') := exact_pow s m e p in
      match m' with
      | Zpos q => SFdiv precision emax (S754_finite false 1 0) (S754_finite false q e')
      | Zneg q => SFdiv precision emax (S754_finite false 1 0) (S754_finite true q e')
      | Z0 => S754_nan
      end
  end.

(** [x ** j] with an integral exponent. NumPy hands the operation to the C
    library's [pow]; it is taken here as correctly rounded: the exact power
    rounded once, to nearest. The values the notebook printed for [3.**n]
    and [expected] are the ones this definition gives. *)
Definition pow (x : PrimFloat.float) (j : Z) : PrimFloat.float :=
  match j with
  | Z0 => PrimFloat.one
  | Zpos p => FloatOps.SF2Prim (SFpow_pos (FloatOps.Prim2SF x) p)
  | Zneg p => FloatOps.SF2Prim (SFpow_neg (FloatOps.Prim2SF x) p)
  end.

#[global] Instance num : Num PrimFloat.float :=
  Build_Num PrimFloat.float of_int PrimFloat.sub PrimFloat.mul PrimFloat.div
            PrimFloat.abs pow.
End Float64.

(** ** Exact rational arithmetic *)

Module Exact.
#[global] Instance num : Num Qc := {|
  of_int := fun z => Q2Qc (inject_Z z);
  sub := Qcminus;
  mul := Qcmult;
  div := Qcdiv;
  fabs := fun x => Q2Qc (Qabs x);
  pow := fun x j => Q2Qc (Qpower x j)
|}.
End Exact.

(** ** Definitions used to state the properties *)

(** The two generators are one program up to the right-hand side [f] of the
    assignment in the loop. *)
Section ThreeTerm.
Context {F : Type} `{Num F}.
Variable f : F -> F -> F.

Definition step (j : Z) (p : list F) : res (list F) :=
  a ← getitem p (j - 1);
  b ← getitem p (j - 2);
  setitem p j (f a b).

Definition three_term (n : Z) : res (list F) :=
  p ← np_zeros (n + 1);
  p ← setitem p 0 (of_int 1);
  p ← setitem p 1 (div (of_int 1) (of_int 3));
  for_in (range 2 (n + 1)) step p.

(** The array has [n+1] cells and holds the two seeds. *)
Definition seeded (n : Z) (p : list F) : Prop :=
  Z.of_nat (length p) = n + 1 /\
  getitem p 0 = Ok (of_int 1) /\
  getitem p 1 = Ok (div (of_int 1) (of_int 3)).

(** Every cell [j] with [2 <= j < k] was computed from its two
    predecessors. *)
Definition recurrence_below (k : Z) (p : list F) : Prop :=
  forall j, 2 <= j < k ->
    exists a b, getitem p (j - 1) = Ok a /\ getitem p (j - 2) = Ok b /\
                getitem p j = Ok (f a b).

End ThreeTerm.

Section RightHandSides.
Context {F : Type} `{Num F}.

(** The right-hand sides of the two assignments in the loops. *)
Definition p_rhs (a b : F) : F :=
  sub (mul (div (of_int 5) (of_int 6)) a) (mul (div (of_int 1) (of_int 6)) b).
Definition q_rhs (a b : F) : F :=
  sub (mul (div (of_int 5) (of_int 3)) a) (mul (div (of_int 4) (of_int 9)) b).
End RightHandSides.

(** [1/3**n] with [n = np.arange(N+1)] an int64 array: the power is taken
    on int64, the quotient on floats. *)
Definition expected_int64 {F : Type} `{Num F} (N : Z) : res (list F) :=
  mapM (fun j => k ← Int64.pow 3 j; Ok (div (of_int 1) (of_int k)))
       (np_arange (N + 1)).

(** [a[j]] read from the result of a computation. *)
Definition at_index {F : Type} `{Num F} (r : res (list F)) (j : Z) : res F :=
  a ← r; getitem a j.

(** The closed form [3^-j] as an exact rational. *)
Definition three_to_minus (j : Z) : Qc := Qcinv (Qcpower (Q2Qc 3) (Z.to_nat j)).

(** One part in ten millions, [1e-7]. *)
Definition tenth_of_a_millionth : PrimFloat.float :=
  PrimFloat.div PrimFloat.one (Float64.of_int 10000000).

(** Of the exceptions of the model, ValueError is the one raised for an
    argument of the right type and an inappropriate value. *)
Definition invalid_argument {A : Type} (r : res A) : Prop :=
  r = Raise ValueError.

(** ** What the notebook printed

    The outputs stored in the notebook, as printed: arrays with NumPy's
    eight digits after the point, scalars in full. *)

Module Notebook.
Import PrimFloat.
Set Warnings "-inexact-float".

(** Out[5], prec(4) *)
Definition out_prec_4 : list PrimFloat.float :=
  [1.0; 0.33333333; 0.11111111; 0.03703704; 0.01234568]%float.

(** Out[6], qrec(4) *)
Definition out_qrec_4 : list PrimFloat.float :=
  [1.0; 0.33333333; 0.11111111; 0.03703704; 0.01234568]%float.

(** Out[8], 1/3**n *)
Definition out_expected_int64 : list PrimFloat.float :=
  [1.00000000e0; 3.33333333e-1; 1.11111111e-1; 3.70370370e-2;
   1.23456790e-2; 4.11522634e-3; 1.37174211e-3; 4.57247371e-4;
   1.52415790e-4; 5.08052634e-5; 1.69350878e-5; 5.64502927e-6;
   1.88167642e-6; 6.27225474e-7; 2.09075158e-7; 6.96917194e-8;
   2.32305731e-8; 7.74352438e-9; 2.58117479e-9; 8.60391597e-10;
   2.86797199e-10; 9.55990664e-11; 3.18663555e-11; 1.06221185e-11;
   3.54070616e-12; 1.18023539e-12; 3.93411796e-13; 1.31137265e-13;
   4.37124217e-14; 1.45708072e-14; 4.85693575e-15; 1.61897858e-15;
   5.39659528e-16; 1.79886509e-16; 5.99621697e-17; 1.99873899e-17;
   6.66246331e-18; 2.22082110e-18; 7.40273701e-19; 2.46757900e-19;
   (-1.59005804e-19)]%float.

(** Out[9], expected *)
Definition out_expected : list PrimFloat.float :=
  [1.00000000e0; 3.33333333e-1; 1.11111111e-1; 3.70370370e-2;
   1.23456790e-2; 4.11522634e-3; 1.37174211e-3; 4.57247371e-4;
   1.52415790e-4; 5.08052634e-5; 1.69350878e-5; 5.64502927e-6;
   1.88167642e-6; 6.27225474e-7; 2.09075158e-7; 6.96917194e-8;
   2.32305731e-8; 7.74352438e-9; 2.58117479e-9; 8.60391597e-10;
   2.86797199e-10; 9.55990664e-11; 3.18663555e-11; 1.06221185e-11;
   3.54070616e-12; 1.18023539e-12; 3.93411796e-13; 1.31137265e-13;
   4.37124217e-14; 1.45708072e-14; 4.85693575e-15; 1.61897858e-15;
   5.39659528e-16; 1.79886509e-16; 5.99621697e-17; 1.99873899e-17;
   6.66246331e-18; 2.22082110e-18; 7.40273701e-19; 2.46757900e-19;
   8.22526334e-20]%float.

(** Out[13], perr *)
Definition out_perr : list PrimFloat.float :=
  [0.00000000e0; 0.00000000e0; 2.22044605e-16; 6.66133815e-16;
   1.77635684e-15; 3.10862447e-15; 5.77315973e-15; 9.54791801e-15;
   1.55431223e-14; 2.48689958e-14; 3.88578059e-14; 5.99520433e-14;
   9.17044218e-14; 1.39666056e-13; 2.12274642e-13; 3.21076499e-13;
   4.84501328e-13; 7.29194483e-13; 1.09645626e-12; 1.64734892e-12;
   2.47379894e-12; 3.71347397e-12; 5.57331958e-12; 8.36308800e-12;
   1.25486288e-11; 1.88269400e-11; 2.82445178e-11; 4.23712176e-11;
   6.35613784e-11; 9.53470636e-11; 1.43026035e-10; 2.14544826e-10;
   3.21823235e-10; 4.82740514e-10; 7.24117211e-10; 1.08618248e-9;
   1.62928049e-9; 2.44392706e-9; 3.66589759e-9; 5.49885359e-9;
   8.24828805e-9]%float.

(** Out[14], qerr *)
Definition out_qerr : list PrimFloat.float :=
  [0.00000000e0; 0.00000000e0; 4.44089210e-16; 3.10862447e-15;
   1.35447209e-14; 5.59552404e-14; 2.27817765e-13; 9.14379683e-13;
   3.66173758e-12; 1.46525014e-11; 5.86160009e-11; 2.34470221e-10;
   9.37887989e-10; 3.75155973e-9; 1.50062471e-8; 6.00249976e-8;
   2.40100000e-7; 9.60400009e-7; 3.84160005e-6; 1.53664002e-5;
   6.14656008e-5; 2.45862403e-4; 9.83449612e-4; 3.93379845e-3;
   1.57351938e-2; 6.29407752e-2; 2.51763101e-1; 1.00705240e0;
   4.02820961e0; 1.61128385e1; 6.44513538e1; 2.57805415e2;
   1.03122166e3; 4.12488664e3; 1.64995466e4; 6.59981863e4;
   2.63992745e5; 1.05597098e6; 4.22388392e6; 1.68955357e7;
   6.75821428e7]%float.

(** Out[10], 3**n[-1] *)
Definition out_int64_pow_3_40 : Z := -6289078614652622815.

(** Out[11], 3.**n[-1] *)
Definition out_float_pow_3_40 : PrimFloat.float := 1.2157665459056929e+19%float.

(** Out[12], 3**N *)
Definition out_int_pow_3_40 : Z := 12157665459056928801.

(** The literal [1e-7]. *)
Definition lit_1e_7 : PrimFloat.float := 1e-7%float.

(** Half a unit of the last digit printed: absolute for the fixed-point
    rows, relative for the rows in scientific notation. *)
Definition half_last_digit : PrimFloat.float := 5e-9%float.

Set Warnings "+inexact-float".

Definition within (tol x d : PrimFloat.float) : bool :=
  PrimFloat.leb (PrimFloat.abs (PrimFloat.sub x d)) tol.

Definition within_rel (tol x d : PrimFloat.float) : bool :=
  PrimFloat.leb (PrimFloat.abs (PrimFloat.sub x d))
                (PrimFloat.mul tol (PrimFloat.abs d)).

Definition agree (close : PrimFloat.float -> PrimFloat.float -> bool)
    (xs ds : list PrimFloat.float) : bool :=
  (length xs =? length ds)%nat && forallb (fun xd => close xd.1 xd.2) (zip xs ds).

Definition result_agrees (close : PrimFloat.float -> PrimFloat.float -> bool)
    (r : res (list PrimFloat.float)) (ds : list PrimFloat.float) : bool :=
  match r with
  | Ok xs => agree close xs ds
  | Raise _ => false
  end.
End Notebook.

(** ** The sequence a generator tabulates *)

Section Sequence.
Context {F : Type} `{Num F}.
Variable f : F -> F -> F.

(** The pair (s[k], s[k+1]) of the sequence with seeds 1 and 1./3 and
    s[k+2] = f s[k+1] s[k]. *)
Fixpoint terms (k : nat) : F * F :=
  match k with
  | O => (of_int 1, div (of_int 1) (of_int 3))
  | S k' => let ab := terms k' in (ab.2, f ab.2 ab.1)
  end.

Definition term (j : Z) : F := (terms (Z.to_nat j)).1.

(** The fractional error of [term j] against the reference 1/3.**j. *)
Definition err_term (j : Z) : F :=
  fabs (sub (of_int 1) (div (term j) (div (of_int 1) (pow (of_int 3) j)))).
End Sequence.

(** The quotient [a/b] of two integers on binary64: the float a decimal
    literal such as 3.99 = 399/100 denotes. *)
Definition decimal (a b : Z) : PrimFloat.float :=
  PrimFloat.div (Float64.of_int a) (Float64.of_int b).

(** ** The scalar cells of the aside *)

(** [3**n[-1]] with [n = np.arange(N+1)]: the last exponent, raised on
    int64. *)
Definition int64_power_of_last (N : Z) : res Z :=
  j ← getitem (np_arange (N + 1)) (-1);
  Int64.pow 3 j.

(** * Properties *)

(** ** Results of the error monad *)

Lemma is_Ok_Raise {A} (e : exn) : ~ is_Ok (@Raise A e).
Proof. intros [a Ha]. discriminate. Qed.

(** ** Indexing *)

Section ArrayFacts.
Context {F : Type} `{Num F}.
Implicit Types (a : list F) (i j : Z) (v x : F).

Lemma index_of_in_range (len : nat) i :
  0 <= i < Z.of_nat len -> index_of len i = Ok (Z.to_nat i).
Proof.
  intros Hi. unfold index_of.
  destruct (Z.leb_spec 0 i), (Z.ltb_spec i (Z.of_nat len)); simpl; try lia.
  reflexivity.
Qed.

Lemma index_of_past_end (len : nat) i :
  Z.of_nat len <= i -> index_of len i = Raise IndexError.
Proof.
  intros Hi. unfold index_of.
  destruct (Z.leb_spec 0 i), (Z.ltb_spec i (Z.of_nat len)),
    (Z.leb_spec (- Z.of_nat len) i), (Z.ltb_spec i 0); simpl; try lia;
    reflexivity.
Qed.

Lemma np_zeros_nonneg n :
  0 <= n -> np_zeros n = Ok (replicate (Z.to_nat n) (of_int 0)).
Proof.
  intros Hn. unfold np_zeros.
  destruct (Z.ltb_spec n 0); [lia | reflexivity].
Qed.

Lemma np_zeros_negative n : n < 0 -> np_zeros (F:=F) n = Raise ValueError.
Proof.
  intros Hn. unfold np_zeros.
  destruct (Z.ltb_spec n 0); [reflexivity | lia].
Qed.

Lemma setitem_in_range a i v :
  0 <= i < Z.of_nat (length a) -> setitem a i v = Ok (<[Z.to_nat i := v]> a).
Proof.
  intros Hi. unfold setitem. rewrite index_of_in_range by done. reflexivity.
Qed.

Lemma setitem_past_end a i v :
  Z.of_nat (length a) <= i -> setitem a i v = Raise IndexError.
Proof.
  intros Hi. unfold setitem. rewrite index_of_past_end by done. reflexivity.
Qed.

Lemma getitem_lookup a i x :
  0 <= i -> a !! Z.to_nat i = Some x -> getitem a i = Ok x.
Proof.
  intros Hi Hx. unfold getitem.
  assert (Z.to_nat i < length a)%nat by (eapply lookup_lt_Some; eassumption).
  rewrite index_of_in_range by lia. simpl. rewrite Hx. reflexivity.
Qed.

Lemma getitem_Ok_lookup a i x :
  0 <= i -> getitem a i = Ok x -> a !! Z.to_nat i = Some x.
Proof.
  intros Hi. unfold getitem.
  destruct (Z.lt_ge_cases i (Z.of_nat (length a))).
  - rewrite index_of_in_range by lia. simpl.
    destruct (a !! Z.to_nat i); [congruence | discriminate].
  - rewrite index_of_past_end by lia. discriminate.
Qed.

Lemma getitem_in_range a i :
  0 <= i < Z.of_nat (length a) -> exists x, getitem a i = Ok x.
Proof.
  intros Hi.
  destruct (lookup_lt_is_Some_2 a (Z.to_nat i)) as [x Hx]; [lia |].
  exists x. apply getitem_lookup; [lia | exact Hx].
Qed.

Lemma getitem_past_end a i :
  Z.of_nat (length a) <= i -> getitem a i = Raise IndexError.
Proof.
  intros Hi. unfold getitem. rewrite index_of_past_end by done. reflexivity.
Qed.

Lemma getitem_insert_eq a i v :
  0 <= i < Z.of_nat (length a) -> getitem (<[Z.to_nat i := v]> a) i = Ok v.
Proof.
  intros Hi. apply getitem_lookup; [lia |].
  apply list_lookup_insert_eq. lia.
Qed.

Lemma getitem_insert_ne a i j v :
  0 <= i -> 0 <= j -> i <> j ->
  getitem (<[Z.to_nat i := v]> a) j = getitem a j.
Proof.
  intros Hi Hj Hne. unfold getitem. rewrite length_insert.
  destruct (index_of (length a) j) as [k|e] eqn:Hk; [| reflexivity].
  simpl. rewrite list_lookup_insert_ne; [reflexivity |].
  unfold index_of in Hk.
  destruct (Z.leb_spec 0 j), (Z.ltb_spec j (Z.of_nat (length a)));
    simpl in Hk; try lia.
  - injection Hk as <-. lia.
  - destruct (Z.leb_spec (- Z.of_nat (length a)) j), (Z.ltb_spec j 0);
      simpl in Hk; try lia; discriminate.
Qed.
End ArrayFacts.

(** ** Loops *)

Lemma for_in_seqZ_invariant {St : Type} (I : Z -> St -> Prop)
    (body : Z -> St -> res St) (len : nat) :
  forall (lo : Z) (s : St),
    I lo s ->
    (forall j t, lo <= j < lo + Z.of_nat len -> I j t ->
                 exists t', body j t = Ok t' /\ I (j + 1) t') ->
    exists s', for_in (seqZ lo (Z.of_nat len)) body s = Ok s' /\
               I (lo + Z.of_nat len) s'.
Proof.
  induction len as [|len IH]; intros lo s Hs Hbody.
  - exists s. split; [reflexivity |]. replace (lo + Z.of_nat 0) with lo by lia.
    exact Hs.
  - rewrite seqZ_cons by lia. simpl.
    destruct (Hbody lo s) as (t & Ht & HI); [lia | exact Hs |].
    rewrite Ht. simpl.
    replace (Z.pred (Z.of_nat (S len))) with (Z.of_nat len) by lia.
    destruct (IH (Z.succ lo) t) as (s' & Hs' & HI').
    + replace (Z.succ lo) with (lo + 1) by lia. exact HI.
    + intros j u Hj Hu. apply Hbody; [lia | exact Hu].
    + exists s'. split; [exact Hs' |].
      replace (lo + Z.of_nat (S len)) with (Z.succ lo + Z.of_nat len) by lia.
      exact HI'.
Qed.

Lemma for_in_range_invariant {St : Type} (I : Z -> St -> Prop)
    (body : Z -> St -> res St) (lo hi : Z) (s : St) :
  lo <= hi ->
  I lo s ->
  (forall j t, lo <= j < hi -> I j t ->
               exists t', body j t = Ok t' /\ I (j + 1) t') ->
  exists s', for_in (range lo hi) body s = Ok s' /\ I hi s'.
Proof.
  intros Hle Hs Hbody. unfold range.
  replace (hi - lo) with (Z.of_nat (Z.to_nat (hi - lo))) by lia.
  destruct (for_in_seqZ_invariant I body (Z.to_nat (hi - lo)) lo s Hs)
    as (s' & Hs' & HI).
  - intros j t Hj. apply Hbody. lia.
  - exists s'. split; [exact Hs' |].
    replace hi with (lo + Z.of_nat (Z.to_nat (hi - lo))) by lia. exact HI.
Qed.

(** ** The common shape of the two generators *)

Section ThreeTermFacts.
Context {F : Type} `{Num F}.
Variable f : F -> F -> F.

Lemma step_preserves (n j : Z) (p : list F) :
  2 <= j < n + 1 -> seeded n p -> recurrence_below f j p ->
  exists p', step f j p = Ok p' /\ seeded n p' /\ recurrence_below f (j + 1) p'.
Proof.
  intros Hj (Hlen & H0 & H1) Hrec.
  destruct (getitem_in_range p (j - 1)) as [a Ha]; [lia |].
  destruct (getitem_in_range p (j - 2)) as [b Hb]; [lia |].
  exists (<[Z.to_nat j := f a b]> p). split; [| split].
  - unfold step. rewrite Ha. simpl. rewrite Hb. simpl.
    apply setitem_in_range. lia.
  - repeat split.
    + rewrite length_insert. exact Hlen.
    + rewrite getitem_insert_ne by lia. exact H0.
    + rewrite getitem_insert_ne by lia. exact H1.
  - intros k Hk. destruct (Z.eq_dec k j) as [-> | Hne].
    + exists a, b. rewrite !getitem_insert_ne by lia.
      rewrite getitem_insert_eq by lia. auto.
    + destruct (Hrec k) as (a' & b' & Ha' & Hb' & Hk'); [lia |].
      exists a', b'. rewrite !getitem_insert_ne by lia. auto.
Qed.

Lemma three_term_Ok (n : Z) :
  1 <= n ->
  exists p, three_term f n = Ok p /\ seeded n p /\ recurrence_below f (n + 1) p.
Proof.
  intros Hn. unfold three_term.
  rewrite np_zeros_nonneg by lia. simpl.
  set (a0 := replicate (Z.to_nat (n + 1)) (of_int 0)).
  assert (Hlen0 : Z.of_nat (length a0) = n + 1)
    by (unfold a0; rewrite length_replicate; lia).
  rewrite setitem_in_range by lia. simpl.
  rewrite setitem_in_range by (rewrite length_insert; lia). simpl.
  set (a2 := <[Z.to_nat 1 := _]> _).
  destruct (for_in_range_invariant
              (fun k p => seeded n p /\ recurrence_below f k p)
              (step f) 2 (n + 1) a2) as (p & Hp & Hseed & Hrec).
  - lia.
  - split.
    + repeat split.
      * unfold a2. rewrite !length_insert. exact Hlen0.
      * unfold a2. rewrite getitem_insert_ne by lia.
        apply getitem_insert_eq. lia.
      * unfold a2. apply getitem_insert_eq. rewrite length_insert. lia.
    + intros j Hj. lia.
  - intros j t Hj [Hseed Hrec].
    destruct (step_preserves n j t Hj Hseed Hrec) as (t' & ? & ? & ?).
    exists t'. auto.
  - exists p. auto.
Qed.

(** A length-one array has no cell for the second seed. *)
Lemma three_term_zero : three_term f 0 = Raise IndexError.
Proof. reflexivity. Qed.

(** An empty array has no cell for the first seed. *)
Lemma three_term_minus_one : three_term f (-1) = Raise IndexError.
Proof. reflexivity. Qed.

(** [np.zeros] refuses a negative dimension. *)
Lemma three_term_negative_dim (n : Z) :
  n <= -2 -> three_term f n = Raise ValueError.
Proof.
  intros Hn. unfold three_term. rewrite np_zeros_negative by lia.
  reflexivity.
Qed.

Lemma three_term_cases (n : Z) :
  (1 <= n /\ is_Ok (three_term f n)) \/
  ((n = 0 \/ n = -1) /\ three_term f n = Raise IndexError) \/
  (n <= -2 /\ three_term f n = Raise ValueError).
Proof.
  destruct (Z.le_gt_cases 1 n) as [Hn | Hn].
  - left. split; [exact Hn |].
    destruct (three_term_Ok n Hn) as (p & Hp & _). exists p. exact Hp.
  - right. destruct (Z.le_gt_cases n (-2)) as [Hm | Hm].
    + right. split; [exact Hm | apply three_term_negative_dim; exact Hm].
    + left. assert (n = 0 \/ n = -1) as [-> | ->] by lia.
      * split; [auto | apply three_term_zero].
      * split; [auto | apply three_term_minus_one].
Qed.
(** A sequence with the two seeds of [c] that obeys a recurrence [c] obeys
    too is [c] itself. *)
Lemma recurrence_determines (c : Z -> F) (n : Z) (p : list F) :
  c 0 = of_int 1 ->
  c 1 = div (of_int 1) (of_int 3) ->
  (forall j, 2 <= j -> f (c (j - 1)) (c (j - 2)) = c j) ->
  seeded n p -> recurrence_below f (n + 1) p ->
  forall j, 0 <= j <= n -> getitem p j = Ok (c j).
Proof.
  intros Hc0 Hc1 Hc (_ & H0 & H1) Hrec.
  assert (Hall : forall k : nat, forall j, 0 <= j <= n -> j <= Z.of_nat k ->
                                      getitem p j = Ok (c j)).
  { induction k as [| k IH]; intros j Hj Hk.
    - replace j with 0 by lia. rewrite Hc0. exact H0.
    - destruct (Z.eq_dec j 0) as [-> | Hj0]; [rewrite Hc0; exact H0 |].
      destruct (Z.eq_dec j 1) as [-> | Hj1]; [rewrite Hc1; exact H1 |].
      destruct (Hrec j) as (a & b & Ha & Hb & Hj'); [lia |].
      rewrite IH in Ha by lia. rewrite IH in Hb by lia.
      injection Ha as <-. injection Hb as <-.
      rewrite Hj', Hc by lia. reflexivity. }
  intros j Hj. apply (Hall (Z.to_nat j)); lia.
Qed.

Lemma closed_form_list (c : Z -> F) (n : Z) (p : list F) :
  Z.of_nat (length p) = n + 1 ->
  (forall j, 0 <= j <= n -> getitem p j = Ok (c j)) ->
  p = c <$> np_arange (n + 1).
Proof.
  intros Hlen Hp. apply list_eq. intros i.
  unfold np_arange. rewrite list_lookup_fmap.
  destruct (Nat.lt_ge_cases i (length p)) as [Hi | Hi].
  - rewrite lookup_seqZ_lt by lia. simpl.
    rewrite <- (Nat2Z.id i) at 1. apply getitem_Ok_lookup; [lia |].
    apply Hp. lia.
  - rewrite lookup_ge_None_2 by exact Hi.
    rewrite lookup_seqZ_ge by lia. reflexivity.
Qed.

Lemma three_term_closed_form (c : Z -> F) (n : Z) :
  c 0 = of_int 1 ->
  c 1 = div (of_int 1) (of_int 3) ->
  (forall j, 2 <= j -> f (c (j - 1)) (c (j - 2)) = c j) ->
  1 <= n ->
  three_term f n = Ok (c <$> np_arange (n + 1)).
Proof.
  intros Hc0 Hc1 Hc Hn.
  destruct (three_term_Ok n Hn) as (p & Hp & Hseed & Hrec).
  rewrite Hp. f_equal. apply closed_form_list; [apply Hseed |].
  apply recurrence_determines; assumption.
Qed.
End ThreeTermFacts.

Section GeneratorFacts.
Context {F : Type} `{Num F}.

Lemma prec_three_term (n : Z) : prec n = three_term p_rhs n.
Proof. reflexivity. Qed.

Lemma qrec_three_term (n : Z) : qrec n = three_term q_rhs n.
Proof. reflexivity. Qed.
End GeneratorFacts.

(** ** The generators on valid input *)

Section GeneratorClaims.
Context {F : Type} `{Num F}.

(** C1. For every N >= 1, prec(N) returns an array of N+1 cells with
    p[0] = 1, p[1] = 1./3 and, for every j with 2 <= j <= N,
    p[j] = 5./6*p[j-1] - 1./6*p[j-2], every operation being the one of
    the arithmetic in use. *)
Theorem prec_recurrence (N : Z) :
  1 <= N ->
  exists p : list F,
    prec N = Ok p /\
    Z.of_nat (length p) = N + 1 /\
    getitem p 0 = Ok (of_int 1) /\
    getitem p 1 = Ok (div (of_int 1) (of_int 3)) /\
    forall j, 2 <= j <= N ->
      exists a b, getitem p (j - 1) = Ok a /\ getitem p (j - 2) = Ok b /\
        getitem p j = Ok (sub (mul (div (of_int 5) (of_int 6)) a)
                              (mul (div (of_int 1) (of_int 6)) b)).
Proof.
  intros HN. rewrite prec_three_term.
  destruct (three_term_Ok p_rhs N HN) as (p & Hp & (Hlen & H0 & H1) & Hrec).
  exists p. repeat split; try assumption.
  intros j Hj. apply Hrec. lia.
Qed.

(** C2. For every N >= 1, qrec(N) returns an array of N+1 cells with
    q[0] = 1, q[1] = 1./3 and, for every j with 2 <= j <= N,
    q[j] = 5./3*q[j-1] - 4./9*q[j-2]. *)
Theorem qrec_recurrence (N : Z) :
  1 <= N ->
  exists q : list F,
    qrec N = Ok q /\
    Z.of_nat (length q) = N + 1 /\
    getitem q 0 = Ok (of_int 1) /\
    getitem q 1 = Ok (div (of_int 1) (of_int 3)) /\
    forall j, 2 <= j <= N ->
      exists a b, getitem q (j - 1) = Ok a /\ getitem q (j - 2) = Ok b /\
        getitem q j = Ok (sub (mul (div (of_int 5) (of_int 3)) a)
                              (mul (div (of_int 4) (of_int 9)) b)).
Proof.
  intros HN. rewrite qrec_three_term.
  destruct (three_term_Ok q_rhs N HN) as (q & Hq & (Hlen & H0 & H1) & Hrec).
  exists q. repeat split; try assumption.
  intros j Hj. apply Hrec. lia.
Qed.

(** C10. Both generators run to the end, every indexed read and write
    inside the array of n+1 cells, exactly when n >= 1; for n = 0 the
    write of the second seed, at index 1 of an array of one cell, is the
    access that is out of bounds. Over all integers the out-of-bounds
    exception is met for n = 0 and n = -1 only, a smaller n being refused
    by the allocation. *)
Theorem writes_in_bounds_iff (n : Z) :
  (is_Ok (prec (F:=F) n) <-> 1 <= n) /\
  (is_Ok (qrec (F:=F) n) <-> 1 <= n) /\
  (prec (F:=F) n = Raise IndexError <-> n = 0 \/ n = -1) /\
  (qrec (F:=F) n = Raise IndexError <-> n = 0 \/ n = -1) /\
  (forall v : F,
      (p ← np_zeros (0 + 1); setitem p 0 (of_int 1)) = Ok [of_int 1] /\
      setitem [of_int 1] 1 v = Raise IndexError) /\
  prec (F:=F) 0 = Raise IndexError /\
  qrec (F:=F) 0 = Raise IndexError.
Proof.
  rewrite prec_three_term, qrec_three_term.
  split; [| split; [| split; [| split; [| split; [| split]]]]].
  - destruct (three_term_cases p_rhs n) as [[Hn Hok] | [[Hn ->] | [Hn ->]]];
      [tauto | |]; (split; [intros Hok; destruct (is_Ok_Raise _ Hok) | lia]).
  - destruct (three_term_cases q_rhs n) as [[Hn Hok] | [[Hn ->] | [Hn ->]]];
      [tauto | |]; (split; [intros Hok; destruct (is_Ok_Raise _ Hok) | lia]).
  - destruct (three_term_cases p_rhs n) as [[Hn [p ->]] | [[Hn ->] | [Hn ->]]];
      (split; [intros Hr; (discriminate Hr || exact Hn) | intros; (lia || reflexivity)]).
  - destruct (three_term_cases q_rhs n) as [[Hn [q ->]] | [[Hn ->] | [Hn ->]]];
      (split; [intros Hr; (discriminate Hr || exact Hn) | intros; (lia || reflexivity)]).
  - intros v. split; reflexivity.
  - reflexivity.
  - reflexivity.
Qed.

(** C5, as the code has it. A negative N makes both generators raise and
    return nothing, but not through a check of the argument: for
    N <= -2 the allocation np.zeros(N+1) raises ValueError, and for
    N = -1 an empty array is allocated and the write of the first seed
    raises IndexError. *)
Theorem negative_input_raises (N : Z) :
  N < 0 ->
  ~ is_Ok (prec (F:=F) N) /\ ~ is_Ok (qrec (F:=F) N) /\
  (N <= -2 ->
     np_zeros (F:=F) (N + 1) = Raise ValueError /\
     prec (F:=F) N = Raise ValueError /\ qrec (F:=F) N = Raise ValueError) /\
  (N = -1 ->
     np_zeros (F:=F) (N + 1) = Ok [] /\
     prec (F:=F) N = Raise IndexError /\ qrec (F:=F) N = Raise IndexError).
Proof.
  intros HN. rewrite prec_three_term, qrec_three_term.
  split; [| split; [| split]].
  - destruct (three_term_cases p_rhs N) as [[Hn _] | [[_ ->] | [_ ->]]];
      [lia | apply is_Ok_Raise ..].
  - destruct (three_term_cases q_rhs N) as [[Hn _] | [[_ ->] | [_ ->]]];
      [lia | apply is_Ok_Raise ..].
  - intros Hn. rewrite np_zeros_negative by lia.
    rewrite !three_term_negative_dim by lia. auto.
  - intros ->. repeat split; reflexivity.
Qed.
End GeneratorClaims.

(** ** The fractional error *)

Section TestFacts.
Context {F : Type} `{Num F}.

Lemma length_expected (N : Z) :
  length (expected (F:=F) N) = Z.to_nat (N + 1).
Proof. unfold expected, np_arange. rewrite length_fmap. apply length_seqZ. Qed.

Lemma getitem_expected (N j : Z) :
  0 <= j <= N ->
  getitem (expected N) j = Ok (div (of_int 1) (pow (of_int 3) j)).
Proof.
  intros Hj. apply getitem_lookup; [lia |].
  unfold expected, np_arange. rewrite list_lookup_fmap.
  rewrite lookup_seqZ_lt by lia. simpl.
  replace (0 + Z.of_nat (Z.to_nat j)) with j by lia. reflexivity.
Qed.

Lemma broadcast_same_length (op : F -> F -> F) (a b : list F) :
  length a = length b -> broadcast op a b = Ok (zip_with op a b).
Proof.
  intros Hlen. unfold broadcast. rewrite Hlen, Nat.eqb_refl. reflexivity.
Qed.

Lemma frac_err_same_length (s e : list F) :
  length s = length e ->
  frac_err s e = Ok ((fun x => fabs (sub (of_int 1) x)) <$> zip_with div s e).
Proof.
  intros Hlen. unfold frac_err.
  rewrite broadcast_same_length by exact Hlen. reflexivity.
Qed.

Lemma getitem_frac_err (s e : list F) (j : Z) (x y : F) :
  0 <= j -> length s = length e ->
  getitem s j = Ok x -> getitem e j = Ok y ->
  at_index (frac_err s e) j = Ok (fabs (sub (of_int 1) (div x y))).
Proof.
  intros Hj Hlen Hx Hy. rewrite frac_err_same_length by exact Hlen.
  unfold at_index. simpl. apply getitem_lookup; [exact Hj |].
  rewrite list_lookup_fmap, lookup_zip_with.
  rewrite (getitem_Ok_lookup s j x Hj Hx). simpl.
  rewrite (getitem_Ok_lookup e j y Hj Hy). reflexivity.
Qed.

(** C6. For a sequence S of N+1 elements the analyzer returns N+1 values,
    in the order of S, the j-th being |1 - S[j] / (1/3.**j)|; the
    reference 1/3.**j is an exponentiation followed by one division and
    reads no element of either generator. *)
Theorem frac_err_elementwise (N : Z) (S : list F) :
  Z.of_nat (length S) = N + 1 ->
  exists E : list F,
    frac_err S (expected N) = Ok E /\
    Z.of_nat (length E) = N + 1 /\
    forall j, 0 <= j <= N ->
      exists s, getitem S j = Ok s /\
        getitem E j =
          Ok (fabs (sub (of_int 1)
                        (div s (div (of_int 1) (pow (of_int 3) j))))).
Proof.
  intros Hlen.
  assert (Hlen' : length S = length (expected N))
    by (rewrite length_expected; lia).
  pose proof (frac_err_same_length S (expected N) Hlen') as HE.
  eexists. split; [exact HE |]. split.
  - rewrite length_fmap, length_zip_with, length_expected. lia.
  - intros j Hj.
    destruct (getitem_in_range S j) as [s Hs]; [lia |].
    exists s. split; [exact Hs |].
    pose proof (getitem_frac_err S (expected N) j s _ ltac:(lia) Hlen' Hs
                  (getitem_expected N j Hj)) as Hget.
    rewrite HE in Hget. exact Hget.
Qed.
End TestFacts.

(** ** Wrap-around of int64 *)

Section Int64Facts.
Import Int64.

Lemma modulus_pos : 0 < modulus.
Proof. reflexivity. Qed.

Lemma wrap_range (z : Z) : - half_modulus <= wrap z < half_modulus.
Proof.
  unfold wrap. pose proof (Z.mod_pos_bound (z + half_modulus) modulus modulus_pos).
  change modulus with (2 * half_modulus) in *. lia.
Qed.

Lemma wrap_small (z : Z) : - half_modulus <= z < half_modulus -> wrap z = z.
Proof.
  intros Hz. unfold wrap. rewrite Z.mod_small; [lia |].
  change modulus with (2 * half_modulus). lia.
Qed.

Lemma wrap_mod (z : Z) : wrap z mod modulus = z mod modulus.
Proof.
  unfold wrap. rewrite Zminus_mod_idemp_l. f_equal. lia.
Qed.

Lemma wrap_congr (x y : Z) : x mod modulus = y mod modulus -> wrap x = wrap y.
Proof.
  intros Hxy. unfold wrap.
  rewrite <- (Zplus_mod_idemp_l x), <- (Zplus_mod_idemp_l y), Hxy.
  reflexivity.
Qed.

Lemma mul_mod (a b : Z) : mul a b mod modulus = (a * b) mod modulus.
Proof. apply wrap_mod. Qed.

Lemma pow_mul_mod (a k : Z) :
  mul a a ^ k mod modulus = (a * a) ^ k mod modulus.
Proof. rewrite <- (Z.mod_pow_l (mul a a)), mul_mod, Z.mod_pow_l. reflexivity. Qed.

Lemma pow_pos_mod (p : positive) :
  forall a, pow_pos a p mod modulus = a ^ Zpos p mod modulus.
Proof.
  induction p as [p IH | p IH |]; intros a; simpl pow_pos.
  - rewrite mul_mod, <- Zmult_mod_idemp_r, IH, pow_mul_mod, Zmult_mod_idemp_r.
    f_equal. rewrite Pos2Z.inj_xI.
    rewrite Z.pow_add_r, Z.pow_mul_r, Z.pow_1_r by lia.
    rewrite Z.pow_2_r. ring.
  - rewrite IH, pow_mul_mod.
    f_equal. rewrite Pos2Z.inj_xO.
    rewrite Z.pow_mul_r, Z.pow_2_r by lia. reflexivity.
  - rewrite Z.pow_1_r. reflexivity.
Qed.

Lemma pow_pos_range (p : positive) :
  forall a, - half_modulus <= a < half_modulus ->
            - half_modulus <= pow_pos a p < half_modulus.
Proof.
  induction p as [p IH | p IH |]; intros a Ha; simpl pow_pos.
  - apply wrap_range.
  - apply IH, wrap_range.
  - exact Ha.
Qed.

(** The int64 power is the mathematical power, wrapped once. *)
Lemma pow_wrap (a b : Z) :
  - half_modulus <= a < half_modulus -> 0 <= b ->
  pow a b = Ok (wrap (a ^ b)).
Proof.
  intros Ha Hb. destruct b as [| p | p]; [reflexivity | | lia].
  simpl pow. f_equal.
  rewrite <- (wrap_small (pow_pos a p)) by (apply pow_pos_range; exact Ha).
  apply wrap_congr, pow_pos_mod.
Qed.

(** Up to exponent 39 the powers of 3 fit. *)
Lemma pow3_fits (n : Z) : 0 <= n <= 39 -> 0 < 3 ^ n < half_modulus.
Proof.
  intros Hn. split; [apply Z.pow_pos_nonneg; lia |].
  apply Z.le_lt_trans with (3 ^ 39); [apply Z.pow_le_mono_r; lia |].
  reflexivity.
Qed.
End Int64Facts.

(** ** The notebook's run, on binary64 *)

Section Binary64.
Import PrimFloat.
Local Open Scope float_scope.

(** C7. For every N >= 1 the two generators hold the same two seeds, the
    floats 1 and 1./3 (the quotient of 1 by 3 rounded once), which are
    also the two first reference values. *)
Theorem seeds_identical (N : Z) :
  (1 <= N)%Z ->
  exists p q : list float,
    prec N = Ok p /\ qrec N = Ok q /\
    getitem p 0 = Ok 1 /\ getitem q 0 = Ok 1 /\
    getitem p 1 = Ok (1 / 3) /\ getitem q 1 = Ok (1 / 3) /\
    getitem (expected N) 0 = Ok 1 /\ getitem (expected N) 1 = Ok (1 / 3).
Proof.
  intros HN.
  destruct (three_term_Ok (F:=float) p_rhs N HN) as (p & Hp & (_ & Hp0 & Hp1) & _).
  destruct (three_term_Ok (F:=float) q_rhs N HN) as (q & Hq & (_ & Hq0 & Hq1) & _).
  exists p, q. rewrite prec_three_term, qrec_three_term.
  repeat split; try assumption.
  - rewrite getitem_expected by lia. reflexivity.
  - rewrite getitem_expected by lia. reflexivity.
Qed.

(** X6. For every N >= 1 the errors of both recursions at indices 0 and 1
    are exactly 0: the two seeds are the references themselves. *)
Lemma seed_errors_zero (N : Z) :
  (1 <= N)%Z ->
  at_index (perr N) 0 = Ok 0 /\ at_index (perr N) 1 = Ok 0 /\
  at_index (qerr N) 0 = Ok 0 /\ at_index (qerr N) 1 = Ok 0.
Proof.
  intros HN. unfold perr, qerr. rewrite prec_three_term, qrec_three_term.
  destruct (three_term_Ok (F:=float) p_rhs N HN) as (p & -> & (Hp & Hp0 & Hp1) & _).
  destruct (three_term_Ok (F:=float) q_rhs N HN) as (q & -> & (Hq & Hq0 & Hq1) & _).
  simpl.
  assert (Hlp : length p = length (expected (F:=float) N))
    by (rewrite length_expected; lia).
  assert (Hlq : length q = length (expected (F:=float) N))
    by (rewrite length_expected; lia).
  repeat split.
  - rewrite (getitem_frac_err p _ 0%Z _ _ ltac:(lia) Hlp Hp0
               (getitem_expected N 0%Z ltac:(lia))). reflexivity.
  - rewrite (getitem_frac_err p _ 1%Z _ _ ltac:(lia) Hlp Hp1
               (getitem_expected N 1%Z ltac:(lia))). reflexivity.
  - rewrite (getitem_frac_err q _ 0%Z _ _ ltac:(lia) Hlq Hq0
               (getitem_expected N 0%Z ltac:(lia))). reflexivity.
  - rewrite (getitem_frac_err q _ 1%Z _ _ ltac:(lia) Hlq Hq1
               (getitem_expected N 1%Z ltac:(lia))). reflexivity.
Qed.

(** C9. For N = 40 the fractional error of the q recursion at index 40 is
    above 1 and the one of the p recursion is below 1e-7. *)
Theorem errors_at_40 :
  exists ep eq : float,
    at_index (perr 40) 40 = Ok ep /\
    at_index (qerr 40) 40 = Ok eq /\
    ltb 1 eq = true /\
    ltb ep tenth_of_a_millionth = true.
Proof.
  eexists. eexists.
  split; [vm_compute; reflexivity |].
  split; [vm_compute; reflexivity |].
  split; vm_compute; reflexivity.
Qed.

(** C4, on the code. For N = 0 neither generator returns [1]: the write
    of the second seed raises IndexError, so no error sequence exists
    either; on the one-element sequence [1] itself the error would be
    exactly 0. *)
Theorem zero_raises_IndexError :
  prec (F:=float) 0 = Raise IndexError /\
  qrec (F:=float) 0 = Raise IndexError /\
  perr (F:=float) 0 = Raise IndexError /\
  qerr (F:=float) 0 = Raise IndexError /\
  frac_err [1] (expected 0) = Ok [0].
Proof. repeat apply conj; reflexivity. Qed.

(** C5 fails as stated: N = -1 is not refused as an invalid argument; the
    empty array is allocated and the write of the first seed raises
    IndexError. *)
Lemma minus_one_not_invalid_argument :
  (-1 < 0)%Z /\
  ~ (invalid_argument (prec (F:=float) (-1)) /\
     invalid_argument (qrec (F:=float) (-1))).
Proof.
  split; [reflexivity |]. intros [Hp _].
  unfold invalid_argument in Hp. discriminate Hp.
Qed.

(** C8. On int64 the power 3**n is exact up to n = 39 and wraps at n = 40 to
    -6289078614652622815, so for an N with 20 < N <= 40 the integer power is
    negative; the reference 1/3**n then has a negative last element, and the
    error of the p recursion measured against it at index 40 is above 1
    instead of below 1e-7. *)
Theorem int64_power_flips_sign :
  (forall n, (0 <= n <= 39)%Z ->
     Int64.pow 3 n = Ok (3 ^ n)%Z /\ (0 < 3 ^ n)%Z) /\
  Int64.pow 3 40 = Ok (Int64.wrap (3 ^ 40)) /\
  Int64.wrap (3 ^ 40) = (-6289078614652622815)%Z /\
  (exists N k, (20 < N <= 40)%Z /\ Int64.pow 3 N = Ok k /\ (k < 0)%Z) /\
  (exists r : float,
     at_index (expected_int64 40) 40 = Ok r /\ ltb r 0 = true) /\
  (exists e : float,
     at_index (p ← prec 40; r ← expected_int64 40; frac_err p r) 40 = Ok e /\
     ltb 1 e = true).
Proof.
  split; [| split; [| split; [| split; [| split]]]].
  - intros n Hn. pose proof (pow3_fits n Hn) as Hfit. split; [| lia].
    rewrite pow_wrap by (unfold Int64.half_modulus; lia).
    rewrite wrap_small by lia. reflexivity.
  - apply pow_wrap; unfold Int64.half_modulus; lia.
  - reflexivity.
  - exists 40%Z, (-6289078614652622815)%Z. repeat split; lia.
  - eexists. split; vm_compute; reflexivity.
  - eexists. split; vm_compute; reflexivity.
Qed.

Lemma int64_power_flips_sign_witness :
  (0 <= 5 <= 39)%Z /\ Int64.pow 3 5 = Ok (3 ^ 5)%Z /\ (0 < 3 ^ 5)%Z.
Proof.
  split; [lia |].
  destruct int64_power_flips_sign as [Hsmall _]. apply (Hsmall 5%Z). lia.
Defined.

Lemma seeds_identical_witness :
  (1 <= 40)%Z /\
  exists p q : list float,
    prec 40 = Ok p /\ qrec 40 = Ok q /\
    getitem p 0 = Ok 1 /\ getitem q 0 = Ok 1 /\
    getitem p 1 = Ok (1 / 3) /\ getitem q 1 = Ok (1 / 3) /\
    getitem (expected 40) 0 = Ok 1 /\ getitem (expected 40) 1 = Ok (1 / 3).
Proof. split; [lia | apply (seeds_identical 40); lia]. Defined.

End Binary64.

(** ** The model against the outputs stored in the notebook *)

Section AsPrinted.
Import Notebook.

Example prec_4_as_printed :
  result_agrees (within half_last_digit) (prec 4) out_prec_4 = true.
Proof. vm_compute. reflexivity. Qed.

Example qrec_4_as_printed :
  result_agrees (within half_last_digit) (qrec 4) out_qrec_4 = true.
Proof. vm_compute. reflexivity. Qed.

Example expected_as_printed :
  agree (within_rel half_last_digit) (expected 40) out_expected = true.
Proof. vm_compute. reflexivity. Qed.

Example expected_int64_as_printed :
  result_agrees (within_rel half_last_digit) (expected_int64 40)
                out_expected_int64 = true.
Proof. vm_compute. reflexivity. Qed.

Example perr_as_printed :
  result_agrees (within_rel half_last_digit) (perr 40) out_perr = true.
Proof. vm_compute. reflexivity. Qed.

Example qerr_as_printed :
  result_agrees (within_rel half_last_digit) (qerr 40) out_qerr = true.
Proof. vm_compute. reflexivity. Qed.

Example int64_pow_as_printed : Int64.pow 3 40 = Ok out_int64_pow_3_40.
Proof. reflexivity. Qed.

Example float_pow_as_printed :
  pow (F:=PrimFloat.float) (of_int 3) 40 = out_float_pow_3_40.
Proof. vm_compute. reflexivity. Qed.

Example int_pow_as_printed : 3 ^ 40 = out_int_pow_3_40.
Proof. reflexivity. Qed.

Example tenth_of_a_millionth_literal : tenth_of_a_millionth = lit_1e_7.
Proof. vm_compute. reflexivity. Qed.
End AsPrinted.

(** ** The general statements at binary64 inputs *)

Lemma prec_recurrence_witness :
  (1 <= 4) /\
  exists p : list PrimFloat.float,
    prec 4 = Ok p /\
    Z.of_nat (length p) = (4 + 1) /\
    getitem p 0 = Ok (of_int 1) /\
    getitem p 1 = Ok (div (of_int 1) (of_int 3)) /\
    forall j, (2 <= j <= 4) ->
      exists a b, getitem p (j - 1) = Ok a /\ getitem p (j - 2) = Ok b /\
        getitem p j = Ok (sub (mul (div (of_int 5) (of_int 6)) a)
                              (mul (div (of_int 1) (of_int 6)) b)).
Proof. split; [lia | apply (prec_recurrence (F:=PrimFloat.float) 4); lia]. Defined.

Lemma qrec_recurrence_witness :
  (1 <= 4) /\
  exists q : list PrimFloat.float,
    qrec 4 = Ok q /\
    Z.of_nat (length q) = (4 + 1) /\
    getitem q 0 = Ok (of_int 1) /\
    getitem q 1 = Ok (div (of_int 1) (of_int 3)) /\
    forall j, (2 <= j <= 4) ->
      exists a b, getitem q (j - 1) = Ok a /\ getitem q (j - 2) = Ok b /\
        getitem q j = Ok (sub (mul (div (of_int 5) (of_int 3)) a)
                              (mul (div (of_int 4) (of_int 9)) b)).
Proof. split; [lia | apply (qrec_recurrence (F:=PrimFloat.float) 4); lia]. Defined.

Lemma negative_input_raises_witness :
  (-3 < 0) /\
  ~ is_Ok (prec (F:=PrimFloat.float) (-3)) /\ ~ is_Ok (qrec (F:=PrimFloat.float) (-3)) /\
  ((-3 <= -2) ->
     np_zeros (F:=PrimFloat.float) (-3 + 1) = Raise ValueError /\
     prec (F:=PrimFloat.float) (-3) = Raise ValueError /\
     qrec (F:=PrimFloat.float) (-3) = Raise ValueError) /\
  ((-3) = (-1) ->
     np_zeros (F:=PrimFloat.float) (-3 + 1) = Ok [] /\
     prec (F:=PrimFloat.float) (-3) = Raise IndexError /\
     qrec (F:=PrimFloat.float) (-3) = Raise IndexError).
Proof. split; [lia | apply (negative_input_raises (F:=PrimFloat.float) (-3)); lia]. Defined.

Lemma frac_err_elementwise_witness :
  Z.of_nat (length [PrimFloat.one; PrimFloat.two]) = 1 + 1 /\
  exists E : list PrimFloat.float,
    frac_err [PrimFloat.one; PrimFloat.two] (expected 1) = Ok E /\
    Z.of_nat (length E) = 1 + 1 /\
    forall j, 0 <= j <= 1 ->
      exists s, getitem [PrimFloat.one; PrimFloat.two] j = Ok s /\
        getitem E j =
          Ok (fabs (sub (of_int 1)
                        (div s (div (of_int 1) (pow (of_int 3) j))))).
Proof.
  split; [reflexivity |].
  apply (frac_err_elementwise (F:=PrimFloat.float) 1 [PrimFloat.one; PrimFloat.two]).
  reflexivity.
Defined.

(** ** Exact arithmetic: the two recurrences are the same sequence *)

Section ExactFacts.

Lemma Qc_small_constants :
  Q2Qc (inject_Z 1) = 1%Qc /\
  Q2Qc (inject_Z 3) = (1 + 1 + 1)%Qc /\
  Q2Qc (inject_Z 4) = (1 + 1 + 1 + 1)%Qc /\
  Q2Qc (inject_Z 5) = (1 + 1 + 1 + 1 + 1)%Qc /\
  Q2Qc (inject_Z 6) = (1 + 1 + 1 + 1 + 1 + 1)%Qc /\
  Q2Qc (inject_Z 9) = (1 + 1 + 1 + 1 + 1 + 1 + 1 + 1 + 1)%Qc.
Proof. repeat split; apply Qc_is_canon; reflexivity. Qed.

Ltac qc_constants :=
  destruct Qc_small_constants as (E1 & E3 & E4 & E5 & E6 & E9);
  simpl of_int; simpl sub; simpl mul; simpl div;
  change (Q2Qc 3) with (Q2Qc (inject_Z 3));
  rewrite ?E1, ?E3, ?E4, ?E5, ?E6, ?E9.

Lemma pow3_nonzero (k : nat) : (Q2Qc 3 ^ k)%Qc <> 0%Qc.
Proof.
  induction k as [| k IH]; simpl.
  - discriminate.
  - intros Hz. apply Qcmult_integral in Hz.
    destruct Hz as [Hz | Hz]; [discriminate | auto].
Qed.

Lemma three_to_minus_0 : three_to_minus 0 = of_int 1.
Proof. apply Qc_is_canon. reflexivity. Qed.

Lemma three_to_minus_1 : three_to_minus 1 = div (of_int 1) (of_int 3).
Proof. apply Qc_is_canon. reflexivity. Qed.

Ltac closed_form_step j :=
  unfold three_to_minus, p_rhs, q_rhs;
  replace (Z.to_nat j) with (S (S (Z.to_nat (j - 2)))) by lia;
  replace (Z.to_nat (j - 1)) with (S (Z.to_nat (j - 2))) by lia;
  simpl Qcpower;
  let Hx := fresh "Hx" in
  let x := fresh "x" in
  pose proof (pow3_nonzero (Z.to_nat (j - 2))) as Hx;
  set (x := (Q2Qc 3 ^ Z.to_nat (j - 2))%Qc) in *; clearbody x;
  qc_constants; field; repeat split; try discriminate; exact Hx.

(** 5/6 * 3^-(j-1) - 1/6 * 3^-(j-2) = 3^-j *)
Lemma p_rhs_closed_form (j : Z) :
  2 <= j ->
  p_rhs (three_to_minus (j - 1)) (three_to_minus (j - 2)) = three_to_minus j.
Proof. intros Hj. closed_form_step j. Qed.

(** 5/3 * 3^-(j-1) - 4/9 * 3^-(j-2) = 3^-j *)
Lemma q_rhs_closed_form (j : Z) :
  2 <= j ->
  q_rhs (three_to_minus (j - 1)) (three_to_minus (j - 2)) = three_to_minus j.
Proof. intros Hj. closed_form_step j. Qed.

Lemma prec_exact (N : Z) :
  1 <= N -> prec (F:=Qc) N = Ok (three_to_minus <$> np_arange (N + 1)).
Proof.
  intros HN. rewrite prec_three_term.
  apply three_term_closed_form;
    auto using three_to_minus_0, three_to_minus_1, p_rhs_closed_form.
Qed.

Lemma qrec_exact (N : Z) :
  1 <= N -> qrec (F:=Qc) N = Ok (three_to_minus <$> np_arange (N + 1)).
Proof.
  intros HN. rewrite qrec_three_term.
  apply three_term_closed_form;
    auto using three_to_minus_0, three_to_minus_1, q_rhs_closed_form.
Qed.

Lemma at_index_closed_form (N j : Z) :
  0 <= j <= N ->
  at_index (Ok (three_to_minus <$> np_arange (N + 1))) j = Ok (three_to_minus j).
Proof.
  intros Hj. unfold at_index. simpl. apply getitem_lookup; [lia |].
  unfold np_arange. rewrite list_lookup_fmap, lookup_seqZ_lt by lia. simpl.
  f_equal. f_equal. lia.
Qed.

(** C3. Over exact rationals both recurrences, started from 1 and 1/3,
    give 3^-j at every index j, so the two generators return the same
    sequence for every N >= 1 (and fail alike for every other N). *)
Theorem recurrences_agree_exactly (N : Z) :
  prec (F:=Qc) N = qrec (F:=Qc) N /\
  (1 <= N ->
     prec (F:=Qc) N = Ok (three_to_minus <$> np_arange (N + 1)) /\
     qrec (F:=Qc) N = Ok (three_to_minus <$> np_arange (N + 1)) /\
     forall j, 0 <= j <= N ->
       at_index (prec (F:=Qc) N) j = Ok (three_to_minus j) /\
       at_index (qrec (F:=Qc) N) j = Ok (three_to_minus j)).
Proof.
  split.
  - destruct (Z.le_gt_cases 1 N) as [HN | HN].
    + rewrite prec_exact, qrec_exact by exact HN. reflexivity.
    + rewrite prec_three_term, qrec_three_term.
      destruct (three_term_cases p_rhs N) as [[Hn _] | [[Hn ->] | [Hn ->]]];
        [lia | |];
        destruct (three_term_cases q_rhs N) as [[Hn' _] | [[Hn' ->] | [Hn' ->]]];
        solve [lia | reflexivity].
  - intros HN. rewrite prec_exact, qrec_exact by exact HN.
    split; [reflexivity |]. split; [reflexivity |].
    intros j Hj. split; apply at_index_closed_form; exact Hj.
Qed.
End ExactFacts.

Lemma recurrences_agree_exactly_witness :
  1 <= 2 /\
  prec (F:=Qc) 2 = Ok (three_to_minus <$> np_arange (2 + 1)) /\
  qrec (F:=Qc) 2 = Ok (three_to_minus <$> np_arange (2 + 1)) /\
  forall j, 0 <= j <= 2 ->
    at_index (prec (F:=Qc) 2) j = Ok (three_to_minus j) /\
    at_index (qrec (F:=Qc) 2) j = Ok (three_to_minus j).
Proof.
  split; [lia |].
  destruct (recurrences_agree_exactly 2) as [_ Hvalid]. apply Hvalid. lia.
Defined.

(** * Further properties of the notebook's code *)

Lemma Ok_inj {A : Type} (a b : A) : Ok a = Ok b -> a = b.
Proof. intros Hab. injection Hab as Hab. exact Hab. Qed.

(** ** The generators tabulate one sequence *)

Section SequenceFacts.
Context {F : Type} `{Num F}.
Variable f : F -> F -> F.

Lemma term_0 : term f 0 = of_int 1.
Proof. reflexivity. Qed.

Lemma term_1 : term f 1 = div (of_int 1) (of_int 3).
Proof. reflexivity. Qed.

Lemma term_step (j : Z) :
  2 <= j -> f (term f (j - 1)) (term f (j - 2)) = term f j.
Proof.
  intros Hj. unfold term.
  replace (Z.to_nat j) with (S (S (Z.to_nat (j - 2)))) by lia.
  replace (Z.to_nat (j - 1)) with (S (Z.to_nat (j - 2))) by lia.
  reflexivity.
Qed.

Lemma three_term_terms (n : Z) :
  1 <= n -> three_term f n = Ok (term f <$> np_arange (n + 1)).
Proof.
  intros Hn. apply three_term_closed_form;
    auto using term_0, term_1, term_step.
Qed.

Lemma getitem_fmap_arange {A : Type} (c : Z -> A) (n j : Z) :
  0 <= j < n -> getitem (c <$> np_arange n) j = Ok (c j).
Proof.
  intros Hj. apply getitem_lookup; [lia |].
  unfold np_arange. rewrite list_lookup_fmap, lookup_seqZ_lt by lia. simpl.
  f_equal. f_equal. lia.
Qed.

Lemma take_fmap_arange {A : Type} (c : Z -> A) (n m : Z) :
  0 <= n <= m ->
  take (Z.to_nat n) (c <$> np_arange m) = c <$> np_arange n.
Proof.
  intros Hnm. unfold np_arange. rewrite <- fmap_take. f_equal.
  replace m with (n + (m - n)) by lia.
  rewrite seqZ_app by lia.
  rewrite take_app_length' by (rewrite length_seqZ; reflexivity).
  reflexivity.
Qed.

Lemma three_term_prefix (N M : Z) :
  1 <= N <= M ->
  exists p m, three_term f N = Ok p /\ three_term f M = Ok m /\
              p = take (Z.to_nat (N + 1)) m.
Proof.
  intros HNM. rewrite !three_term_terms by lia.
  eexists. eexists. split; [reflexivity |]. split; [reflexivity |].
  symmetry. apply take_fmap_arange. lia.
Qed.

Lemma frac_err_terms (N : Z) :
  frac_err (term f <$> np_arange (N + 1)) (expected N)
  = Ok (err_term f <$> np_arange (N + 1)).
Proof.
  rewrite frac_err_same_length
    by (rewrite length_expected, length_fmap; apply length_seqZ).
  f_equal. unfold expected.
  rewrite zip_with_fmap_l, zip_with_fmap_r, zip_with_diag, <- !list_fmap_compose.
  reflexivity.
Qed.
End SequenceFacts.

Section GeneratorExtras.
Context {F : Type} `{Num F}.

Lemma prec_terms (N : Z) :
  1 <= N -> prec N = Ok (term p_rhs <$> np_arange (N + 1)).
Proof. intros HN. rewrite prec_three_term. apply three_term_terms, HN. Qed.

Lemma qrec_terms (N : Z) :
  1 <= N -> qrec N = Ok (term q_rhs <$> np_arange (N + 1)).
Proof. intros HN. rewrite qrec_three_term. apply three_term_terms, HN. Qed.

Lemma perr_terms (N : Z) :
  1 <= N -> perr N = Ok (err_term p_rhs <$> np_arange (N + 1)).
Proof.
  intros HN. unfold perr. rewrite prec_terms by exact HN. simpl.
  apply frac_err_terms.
Qed.

Lemma qerr_terms (N : Z) :
  1 <= N -> qerr N = Ok (err_term q_rhs <$> np_arange (N + 1)).
Proof.
  intros HN. unfold qerr. rewrite qrec_terms by exact HN. simpl.
  apply frac_err_terms.
Qed.

Lemma perr_fails (N : Z) : N < 1 -> ~ is_Ok (perr (F:=F) N).
Proof.
  intros HN. unfold perr. rewrite prec_three_term.
  destruct (three_term_cases p_rhs N) as [[Hn _] | [[_ ->] | [_ ->]]];
    [lia | apply is_Ok_Raise ..].
Qed.

Lemma qerr_fails (N : Z) : N < 1 -> ~ is_Ok (qerr (F:=F) N).
Proof.
  intros HN. unfold qerr. rewrite qrec_three_term.
  destruct (three_term_cases q_rhs N) as [[Hn _] | [[_ ->] | [_ ->]]];
    [lia | apply is_Ok_Raise ..].
Qed.

(** X1. The array a generator returns for N is the beginning of the array
    it returns for any larger M: the first N+1 cells do not depend on how
    far the loop runs. *)
Theorem generators_prefix (N M : Z) :
  1 <= N <= M ->
  exists p m q r : list F,
    prec N = Ok p /\ prec M = Ok m /\ p = take (Z.to_nat (N + 1)) m /\
    qrec N = Ok q /\ qrec M = Ok r /\ q = take (Z.to_nat (N + 1)) r.
Proof.
  intros HNM. rewrite !prec_three_term, !qrec_three_term.
  destruct (three_term_prefix p_rhs N M HNM) as (p & m & Hp & Hm & Hpm).
  destruct (three_term_prefix q_rhs N M HNM) as (q & r & Hq & Hr & Hqr).
  exists p, m, q, r. auto 10.
Qed.

(** X2. The test cell composes: perr and qerr exist exactly when N >= 1,
    have N+1 elements, and their j-th element is the error of the j-th
    element of the generator against 1/3.**j. *)
Theorem errors_compose (N : Z) :
  (is_Ok (perr (F:=F) N) <-> 1 <= N) /\
  (is_Ok (qerr (F:=F) N) <-> 1 <= N) /\
  (1 <= N ->
   exists p q ep eq : list F,
     prec N = Ok p /\ qrec N = Ok q /\ perr N = Ok ep /\ qerr N = Ok eq /\
     Z.of_nat (length ep) = N + 1 /\ Z.of_nat (length eq) = N + 1 /\
     forall j, 0 <= j <= N ->
       exists pj qj,
         getitem p j = Ok pj /\ getitem q j = Ok qj /\
         getitem ep j =
           Ok (fabs (sub (of_int 1) (div pj (div (of_int 1) (pow (of_int 3) j))))) /\
         getitem eq j =
           Ok (fabs (sub (of_int 1) (div qj (div (of_int 1) (pow (of_int 3) j)))))).
Proof.
  split; [| split].
  - split.
    + intros Hok. destruct (Z.le_gt_cases 1 N) as [HN | HN]; [exact HN |].
      destruct (perr_fails N ltac:(lia) Hok).
    + intros HN. rewrite perr_terms by exact HN. eexists. reflexivity.
  - split.
    + intros Hok. destruct (Z.le_gt_cases 1 N) as [HN | HN]; [exact HN |].
      destruct (qerr_fails N ltac:(lia) Hok).
    + intros HN. rewrite qerr_terms by exact HN. eexists. reflexivity.
  - intros HN.
    rewrite prec_terms, qrec_terms, perr_terms, qerr_terms by exact HN.
    do 4 eexists. repeat (split; [reflexivity |]).
    split; [| split].
    + rewrite length_fmap. unfold np_arange. rewrite length_seqZ. lia.
    + rewrite length_fmap. unfold np_arange. rewrite length_seqZ. lia.
    + intros j Hj. exists (term p_rhs j), (term q_rhs j).
      rewrite !getitem_fmap_arange by lia. auto.
Qed.
End GeneratorExtras.

Section IndexedExtras.
Context {F : Type} `{Num F}.

Lemma at_index_prec (N j : Z) :
  1 <= N -> 0 <= j <= N -> at_index (prec N) j = Ok (term p_rhs j).
Proof.
  intros HN Hj. rewrite prec_terms by exact HN.
  apply getitem_fmap_arange. lia.
Qed.

Lemma at_index_qrec (N j : Z) :
  1 <= N -> 0 <= j <= N -> at_index (qrec N) j = Ok (term q_rhs j).
Proof.
  intros HN Hj. rewrite qrec_terms by exact HN.
  apply getitem_fmap_arange. lia.
Qed.

Lemma at_index_perr (N j : Z) :
  1 <= N -> 0 <= j <= N -> at_index (perr N) j = Ok (err_term p_rhs j).
Proof.
  intros HN Hj. rewrite perr_terms by exact HN.
  apply getitem_fmap_arange. lia.
Qed.

Lemma at_index_qerr (N j : Z) :
  1 <= N -> 0 <= j <= N -> at_index (qerr N) j = Ok (err_term q_rhs j).
Proof.
  intros HN Hj. rewrite qerr_terms by exact HN.
  apply getitem_fmap_arange. lia.
Qed.

Lemma broadcast_mismatch (op : F -> F -> F) (a b : list F) :
  length a <> length b -> length a <> 1%nat -> length b <> 1%nat ->
  broadcast op a b = Raise ValueError.
Proof.
  intros Hab Ha Hb. unfold broadcast.
  destruct (Nat.eqb_spec (length a) (length b)) as [Heq | _]; [contradiction |].
  destruct a as [| x [| x' a]]; destruct b as [| y [| y' b]];
    simpl in *; congruence.
Qed.

(** X3. An error array is only computed against a reference of the same
    length: with a reference made for another M >= 1 the division of the
    two arrays raises ValueError, for both generators. *)
Theorem mismatched_reference_refused (N M : Z) :
  1 <= N -> 1 <= M -> N <> M ->
  (p ← prec (F:=F) N; frac_err p (expected M)) = Raise ValueError /\
  (q ← qrec (F:=F) N; frac_err q (expected M)) = Raise ValueError.
Proof.
  intros HN HM Hne.
  rewrite prec_terms, qrec_terms by exact HN. simpl. unfold frac_err.
  rewrite !broadcast_mismatch; [split; reflexivity | ..];
    rewrite ?length_expected, ?length_fmap; unfold np_arange;
    rewrite ?length_seqZ; lia.
Qed.
End IndexedExtras.

Lemma forallb_seqZ (P : Z -> bool) (lo len : Z) :
  forallb P (seqZ lo len) = true ->
  forall j, lo <= j < lo + len -> P j = true.
Proof.
  intros Hall j Hj. apply Is_true_true_2 in Hall.
  apply forallb_True in Hall. rewrite Forall_seqZ in Hall.
  apply Is_true_true_1. apply Hall. exact Hj.
Qed.

(** ** Fixed-width and unbounded integer powers *)

Section Int64Extras.
Import Int64.

(** X4. The int64 power is the mathematical power reduced into
    [-2^63, 2^63): for a base in range and an exponent b >= 0 the loop of
    wrapped products returns a^b wrapped once, whatever the order of the
    products. *)
Theorem int64_pow_wrapped (a b : Z) :
  - half_modulus <= a < half_modulus -> 0 <= b ->
  exists k, pow a b = Ok k /\ k = wrap (a ^ b) /\
            - half_modulus <= k < half_modulus /\
            k mod modulus = a ^ b mod modulus.
Proof.
  intros Ha Hb. exists (wrap (a ^ b)).
  split; [apply pow_wrap; assumption |].
  split; [reflexivity |].
  split; [apply wrap_range | apply wrap_mod].
Qed.

Lemma getitem_arange_last (N : Z) :
  0 <= N -> getitem (np_arange (N + 1)) (-1) = Ok N.
Proof.
  intros HN. unfold getitem, np_arange, index_of.
  rewrite length_seqZ.
  destruct (Z.leb_spec 0 (-1)); [lia |]. simpl.
  destruct (Z.leb_spec (- Z.of_nat (Z.to_nat (N + 1))) (-1)); [| lia].
  destruct (Z.ltb_spec (-1) 0); [| lia]. simpl.
  rewrite lookup_seqZ_lt by lia. f_equal. lia.
Qed.

Lemma getitem_arange_empty (N : Z) :
  N < 0 -> getitem (np_arange (N + 1)) (-1) = Raise IndexError.
Proof.
  intros HN. unfold np_arange. rewrite seqZ_nil by lia. reflexivity.
Qed.

Lemma pow3_overflows (N : Z) : 40 <= N -> half_modulus <= 3 ^ N.
Proof.
  intros HN. apply Z.le_trans with (3 ^ 40).
  - apply Z.lt_le_incl. reflexivity.
  - apply Z.pow_le_mono_r; lia.
Qed.

(** X5. For N >= 0 the cell 3**n[-1] reads the exponent N from the end of
    n and agrees with Python's unbounded 3**N exactly when N <= 39; from
    N = 40 on the int64 value is never the power. An empty n (N < 0)
    raises IndexError. *)
Theorem int64_power_of_last_exact_iff (N : Z) :
  (0 <= N ->
     int64_power_of_last N = Ok (wrap (3 ^ N)) /\
     (int64_power_of_last N = Ok (3 ^ N) <-> N <= 39)) /\
  (N < 0 -> int64_power_of_last N = Raise IndexError).
Proof.
  split.
  - intros HN. unfold int64_power_of_last.
    rewrite getitem_arange_last by exact HN. simpl.
    rewrite pow_wrap by (unfold half_modulus; lia).
    split; [reflexivity |]. split.
    + intros Heq. injection Heq as Heq.
      destruct (Z.le_gt_cases N 39) as [Hle | Hgt]; [exact Hle |].
      pose proof (wrap_range (3 ^ N)) as Hr.
      pose proof (pow3_overflows N ltac:(lia)) as Ho. lia.
    + intros Hle. f_equal. apply wrap_small.
      pose proof (pow3_fits N ltac:(lia)) as Hf.
      assert (0 < half_modulus) by reflexivity. lia.
  - intros HN. unfold int64_power_of_last.
    rewrite getitem_arange_empty by exact HN. reflexivity.
Qed.
End Int64Extras.

(** ** Rounding errors of the two recursions on binary64 *)

Section Binary64Extras.
Import PrimFloat.
Local Open Scope float_scope.

Lemma seed_errors_zero_witness :
  (1 <= 40)%Z /\
  at_index (perr 40) 0 = Ok 0 /\ at_index (perr 40) 1 = Ok 0 /\
  at_index (qerr 40) 0 = Ok 0 /\ at_index (qerr 40) 1 = Ok 0.
Proof. split; [lia | apply (seed_errors_zero 40); lia]. Defined.

(** X7. On binary64 the two generators, equal over the rationals, differ
    from index 2 on: p[2] < q[2], so prec(N) and qrec(N) are different
    arrays for every N >= 2. *)
Theorem generators_differ_on_binary64 (N : Z) :
  (2 <= N)%Z ->
  prec (F:=float) N <> qrec (F:=float) N /\
  exists p2 q2 : float,
    at_index (prec N) 2 = Ok p2 /\ at_index (qrec N) 2 = Ok q2 /\
    ltb p2 q2 = true.
Proof.
  intros HN.
  assert (Hlt : ltb (term p_rhs 2) (term q_rhs 2) = true)
    by (vm_compute; reflexivity).
  split.
  - intros Heq.
    assert (Hi : at_index (prec (F:=float) N) 2 = at_index (qrec (F:=float) N) 2)
      by (rewrite Heq; reflexivity).
    rewrite at_index_prec, at_index_qrec in Hi by lia.
    apply Ok_inj in Hi. rewrite Hi in Hlt. vm_compute in Hlt. discriminate Hlt.
  - exists (term p_rhs 2), (term q_rhs 2).
    rewrite at_index_prec, at_index_qrec by lia. auto.
Qed.

Lemma generators_differ_on_binary64_witness :
  (2 <= 4)%Z /\
  prec (F:=float) 4 <> qrec (F:=float) 4 /\
  exists p2 q2 : float,
    at_index (prec 4) 2 = Ok p2 /\ at_index (qrec 4) 2 = Ok q2 /\
    ltb p2 q2 = true.
Proof. split; [lia | apply (generators_differ_on_binary64 4); lia]. Defined.

Lemma growth_checked :
  forallb (fun j =>
             leb (decimal 3 2 * err_term p_rhs j) (err_term p_rhs (j + 1)) &&
             leb (err_term p_rhs (j + 1)) (decimal 8 5 * err_term p_rhs j) &&
             leb (decimal 399 100 * err_term q_rhs j) (err_term q_rhs (j + 1)) &&
             leb (err_term q_rhs (j + 1)) (decimal 401 100 * err_term q_rhs j))
          (seqZ 9 31) = true.
Proof. vm_compute. reflexivity. Qed.

(** X8. From index 9 to index 40 each step multiplies the error of the p
    recursion by a factor between 1.5 and 1.6 and the error of the q
    recursion by a factor between 3.99 and 4.01, for every N that reaches
    the two indices. *)
Theorem error_growth_rates (N j : Z) :
  (9 <= j)%Z -> (j + 1 <= N)%Z -> (j + 1 <= 40)%Z ->
  exists ep ep' eq eq' : float,
    at_index (perr N) j = Ok ep /\ at_index (perr N) (j + 1) = Ok ep' /\
    at_index (qerr N) j = Ok eq /\ at_index (qerr N) (j + 1) = Ok eq' /\
    leb (decimal 3 2 * ep) ep' = true /\ leb ep' (decimal 8 5 * ep) = true /\
    leb (decimal 399 100 * eq) eq' = true /\
    leb eq' (decimal 401 100 * eq) = true.
Proof.
  intros Hj HN H40.
  pose proof (forallb_seqZ _ _ _ growth_checked j ltac:(lia)) as Hc.
  simpl in Hc. rewrite !andb_true_iff in Hc.
  destruct Hc as [[[H1 H2] H3] H4].
  exists (err_term p_rhs j), (err_term p_rhs (j + 1)),
         (err_term q_rhs j), (err_term q_rhs (j + 1)).
  rewrite !at_index_perr, !at_index_qerr by lia. auto 10.
Qed.

Lemma error_growth_rates_witness :
  (9 <= 20)%Z /\ (20 + 1 <= 40)%Z /\ (20 + 1 <= 40)%Z /\
  exists ep ep' eq eq' : float,
    at_index (perr 40) 20 = Ok ep /\ at_index (perr 40) (20 + 1) = Ok ep' /\
    at_index (qerr 40) 20 = Ok eq /\ at_index (qerr 40) (20 + 1) = Ok eq' /\
    leb (decimal 3 2 * ep) ep' = true /\ leb ep' (decimal 8 5 * ep) = true /\
    leb (decimal 399 100 * eq) eq' = true /\
    leb eq' (decimal 401 100 * eq) = true.
Proof.
  split; [lia |]. split; [lia |]. split; [lia |].
  apply (error_growth_rates 40 20); lia.
Defined.





End Binary64Extras.

(** ** Exact arithmetic: no error at all *)

Section ExactExtras.

Lemma Qc_pow3 (k : nat) :
  Q2Qc (Qpower (Q2Qc 3) (Z.of_nat k)) = (Q2Qc 3 ^ k)%Qc.
Proof.
  induction k as [| k IH]; apply Qc_is_canon.
  - reflexivity.
  - simpl Qcpower. rewrite <- IH. unfold Qcmult, Q2Qc. cbn [this].
    rewrite !Qred_correct.
    replace (Z.of_nat (S k)) with (1 + Z.of_nat k) by lia.
    rewrite Qpower_plus by discriminate. reflexivity.
Qed.

Lemma expected_exact (j : Z) :
  0 <= j -> div (of_int 1) (pow (of_int (F:=Qc) 3) j) = three_to_minus j.
Proof.
  intros Hj. unfold three_to_minus. cbv [pow div of_int Exact.num].
  rewrite <- (Z2Nat.id j) at 1 by exact Hj.
  change (Q2Qc (inject_Z 3)) with (Q2Qc 3).
  rewrite Qc_pow3. unfold Qcdiv.
  replace (Q2Qc (inject_Z 1)) with 1%Qc by (apply Qc_is_canon; reflexivity).
  apply Qcmult_1_l.
Qed.

Lemma three_to_minus_nonzero (j : Z) : three_to_minus j <> 0%Qc.
Proof.
  unfold three_to_minus. intros Hz.
  pose proof (Qcmult_inv_r _ (pow3_nonzero (Z.to_nat j))) as Hone.
  rewrite Hz, Qcmult_0_r in Hone. discriminate Hone.
Qed.

Lemma err_of_exact_term (x : Qc) :
  x <> 0%Qc -> fabs (sub (of_int 1) (div x x)) = 0%Qc.
Proof.
  intros Hx. cbv [fabs sub div of_int Exact.num].
  unfold Qcdiv. rewrite Qcmult_inv_r by exact Hx.
  replace (Q2Qc (inject_Z 1)) with 1%Qc by (apply Qc_is_canon; reflexivity).
  replace (1 - 1)%Qc with 0%Qc by ring.
  apply Qc_is_canon. reflexivity.
Qed.

(** X11. Over exact rationals every fractional error is 0: for N >= 1
    each element of perr and of qerr is exactly 0, so the errors of the
    notebook come from rounding alone. *)
Theorem exact_errors_vanish (N j : Z) :
  1 <= N -> 0 <= j <= N ->
  at_index (perr (F:=Qc) N) j = Ok 0%Qc /\
  at_index (qerr (F:=Qc) N) j = Ok 0%Qc.
Proof.
  intros HN Hj. unfold perr, qerr.
  rewrite prec_exact, qrec_exact by exact HN. simpl.
  assert (Hget : getitem (three_to_minus <$> np_arange (N + 1)) j
                 = Ok (three_to_minus j))
    by (apply getitem_fmap_arange; lia).
  assert (Hlen : length (three_to_minus <$> np_arange (N + 1))
                 = length (expected (F:=Qc) N))
    by (rewrite length_expected, length_fmap; apply length_seqZ).
  rewrite (getitem_frac_err _ _ j _ _ ltac:(lia) Hlen Hget
             (getitem_expected N j Hj)).
  rewrite expected_exact by lia.
  rewrite err_of_exact_term by apply three_to_minus_nonzero.
  split; reflexivity.
Qed.

Lemma exact_errors_vanish_witness :
  1 <= 3 /\ 0 <= 2 <= 3 /\
  at_index (perr (F:=Qc) 3) 2 = Ok 0%Qc /\
  at_index (qerr (F:=Qc) 3) 2 = Ok 0%Qc.
Proof.
  split; [lia |]. split; [lia |]. apply (exact_errors_vanish 3 2); lia.
Defined.
End ExactExtras.

(** ** The general statements at concrete inputs *)

Lemma generators_prefix_witness :
  1 <= 2 <= 5 /\
  exists p m q r : list PrimFloat.float,
    prec 2 = Ok p /\ prec 5 = Ok m /\ p = take (Z.to_nat (2 + 1)) m /\
    qrec 2 = Ok q /\ qrec 5 = Ok r /\ q = take (Z.to_nat (2 + 1)) r.
Proof.
  split; [lia | apply (generators_prefix (F:=PrimFloat.float) 2 5); lia].
Defined.

Lemma errors_compose_witness :
  1 <= 2 /\
  exists p q ep eq : list PrimFloat.float,
    prec 2 = Ok p /\ qrec 2 = Ok q /\ perr 2 = Ok ep /\ qerr 2 = Ok eq /\
    Z.of_nat (length ep) = 2 + 1 /\ Z.of_nat (length eq) = 2 + 1 /\
    forall j, 0 <= j <= 2 ->
      exists pj qj,
        getitem p j = Ok pj /\ getitem q j = Ok qj /\
        getitem ep j =
          Ok (fabs (sub (of_int 1) (div pj (div (of_int 1) (pow (of_int 3) j))))) /\
        getitem eq j =
          Ok (fabs (sub (of_int 1) (div qj (div (of_int 1) (pow (of_int 3) j))))).
Proof.
  split; [lia |].
  destruct (errors_compose (F:=PrimFloat.float) 2) as (_ & _ & Hvalid).
  apply Hvalid. lia.
Defined.

Lemma mismatched_reference_refused_witness :
  1 <= 40 /\ 1 <= 39 /\ 40 <> 39 /\
  (p ← prec (F:=PrimFloat.float) 40; frac_err p (expected 39)) = Raise ValueError /\
  (q ← qrec (F:=PrimFloat.float) 40; frac_err q (expected 39)) = Raise ValueError.
Proof.
  split; [lia |]. split; [lia |]. split; [lia |].
  apply (mismatched_reference_refused (F:=PrimFloat.float) 40 39); lia.
Defined.

Lemma int64_pow_wrapped_witness :
  - Int64.half_modulus <= 3 < Int64.half_modulus /\ 0 <= 40 /\
  exists k, Int64.pow 3 40 = Ok k /\ k = Int64.wrap (3 ^ 40) /\
            - Int64.half_modulus <= k < Int64.half_modulus /\
            k mod Int64.modulus = 3 ^ 40 mod Int64.modulus.
Proof.
  assert (Hr : - Int64.half_modulus <= 3 < Int64.half_modulus)
    by (unfold Int64.half_modulus; lia).
  split; [exact Hr |]. split; [lia |].
  apply (int64_pow_wrapped 3 40); [exact Hr | lia].
Defined.

Lemma int64_power_of_last_exact_iff_witness :
  0 <= 39 /\
  int64_power_of_last 39 = Ok (Int64.wrap (3 ^ 39)) /\
  (int64_power_of_last 39 = Ok (3 ^ 39) <-> 39 <= 39).
Proof.
  split; [lia |].
  destruct (int64_power_of_last_exact_iff 39) as [Hnonneg _].
  apply Hnonneg. lia.
Defined.
